(** * Loan amortisation with rental cash flow: the schedule generator of app.py

    A shallow embedding of [calculate_emi], [generate_amortization] and the
    break-even scan of [app.py], with the properties of the schedule they
    produce.

    Numbers.  The script computes on Python floats, that is on IEEE 754
    binary64 numbers.  Two embeddings are given.

    The reference embedding computes on exact rationals [Q]: every
    operation is the mathematical one and [round(x, 2)] is the exact
    round-half-to-even to two decimals.  Its control flow and its integer
    columns are those of the script, and its amounts are those of the
    script up to the rounding error of binary64.  Integers that the source
    uses as integers (months, years, the vacancy count, the tenure) are [Z].
    Equality of amounts is [==] on [Q].

    The module [Binary64] embeds the same code on binary64 numbers
    ([spec_float] with precision 53 and maximal exponent 1024), with
    Python's own treatment of [**], of division by zero and of
    [round(x, 2)].  It is executable, and it shows what exact arithmetic
    hides: a rate so small that [1 + r] is [1.0], and the rounding error
    that a high rate amplifies.

    Properties of amounts that hold only while the rounding error stays far
    below half a cent are stated for the input ranges of the page
    ([supported_loan], [supported_rent]), with bounds that leave room for
    that error.

    Errors.  A division by zero raises [ZeroDivisionError] in Python; the
    embedding returns a [result], and a raised exception aborts the call. *)

From Stdlib Require Import ZArith QArith Qround Qabs Qpower Qfield.
From Stdlib Require Import List Bool Lia Lra Psatz Sorting.Sorted.
From Stdlib Require Import Floats.SpecFloat.
Import ListNotations.

Open Scope Q_scope.

(** ** Exceptions *)

Inductive exn : Set := ZeroDivisionError.

Inductive result (A : Type) : Type :=
| Ok (a : A)
| Raise (e : exn).

Arguments Ok {A} a.
Arguments Raise {A} e.

Definition bind {A B : Type} (c : result A) (k : A -> result B) : result B :=
  match c with
  | Ok a => k a
  | Raise e => Raise e
  end.

Notation "x <- c ;; k" := (bind c (fun x => k))
  (at level 61, c at next level, right associativity).

Definition result_map {A B : Type} (f : A -> B) (c : result A) : result B :=
  x <- c ;; Ok (f x).

(** ** Python arithmetic on exact numbers *)

(** [a / b]: true division, raising on a zero divisor. *)
Definition py_div (a b : Q) : result Q :=
  if Qeq_bool b 0 then Raise ZeroDivisionError else Ok (a / b).

(** [b ** n] with an integer exponent: zero to a negative power raises. *)
Definition py_pow (b : Q) (n : Z) : result Q :=
  if Qeq_bool b 0 && (n <? 0)%Z then Raise ZeroDivisionError else Ok (b ^ n).

(** [max(a, b)]: the first argument unless the second is strictly greater. *)
Definition py_max (a b : Q) : Q :=
  if Qle_bool b a then a else b.

(** [round(x)] to an integer, ties to the even neighbour. *)
Definition round_half_even (x : Q) : Z :=
  let f := Qfloor x in
  match Qcompare (x - inject_Z f) (1 # 2) with
  | Lt => f
  | Gt => (f + 1)%Z
  | Eq => if Z.even f then f else (f + 1)%Z
  end.

(** [round(x, 2)]. *)
Definition round2 (x : Q) : Q :=
  inject_Z (round_half_even (x * 100)) / 100.

(** [range(lo, hi)]. *)
Definition py_range (lo hi : Z) : list Z :=
  map (fun i => (lo + Z.of_nat i)%Z) (seq 0 (Z.to_nat (hi - lo))).

(** A [for] loop whose body may raise: the state is threaded through the
    items in order, and the first exception ends the loop. *)
Fixpoint for_each {S A : Type} (body : S -> A -> result S)
         (xs : list A) (st : S) : result S :=
  match xs with
  | [] => Ok st
  | x :: rest => st' <- body st x ;; for_each body rest st'
  end.

(** ** calculate_emi *)

Definition calculate_emi (P annual_rate : Q) (years : Z) : result Q :=
  let r := annual_rate / inject_Z (12 * 100) in
  let n := (years * 12)%Z in
  num_pow <- py_pow (1 + r) n ;;
  den_pow <- py_pow (1 + r) n ;;
  emi <- py_div (P * r * num_pow) (den_pow - 1) ;;
  Ok emi.

(** ** generate_amortization *)

(** One dictionary appended to [rows]; the keys of the source are
    "Year", "Month", "Principal Paid", "Interest Charged", "Total EMI",
    "Outstanding Balance", "Rent Received", "Amount Paid by User". *)
Record Row : Type := mkRow {
  Year : Z;
  Month : Z;
  Principal_Paid : Q;
  Interest_Charged : Q;
  Total_EMI : Q;
  Outstanding_Balance : Q;
  Rent_Received : Q;
  Amount_Paid_by_User : Q
}.

(** The vacancy test of the loop body. *)
Definition is_vacant (vacancy_months month : Z) : bool :=
  ((month - 1) mod 12 >=? 12 - vacancy_months)%Z.

Section Schedule.

Variables emi monthly_rate : Q.
Variables base_monthly_rent annual_rent_increase : Q.
Variable vacancy_months : Z.

(** The body of [for month in range(1, tenure_years * 12 + 1)]; the loop
    state is the running [balance] and the list [rows]. *)
Definition month_body (st : Q * list Row) (month : Z) : result (Q * list Row) :=
  let '(balance, rows) := st in
  let year := ((month - 1) / 12)%Z in
  growth <- py_pow (1 + annual_rent_increase / 100) year ;;
  let escalated_rent := base_monthly_rent * growth in
  let effective_rent :=
    if is_vacant vacancy_months month then 0 else escalated_rent in
  let interest := balance * monthly_rate in
  let principal := emi - interest in
  let balance := balance - principal in
  Ok (balance,
      rows ++ [ {| Year := year + 1;
                   Month := month;
                   Principal_Paid := round2 principal;
                   Interest_Charged := round2 interest;
                   Total_EMI := round2 emi;
                   Outstanding_Balance := round2 (py_max balance 0);
                   Rent_Received := round2 effective_rent;
                   Amount_Paid_by_User := round2 (emi - effective_rent) |} ]).

End Schedule.

Definition generate_amortization
    (property_value down_payment_percent annual_interest_rate : Q)
    (tenure_years : Z)
    (base_monthly_rent annual_rent_increase : Q)
    (vacancy_months : Z) : result (list Row * Q) :=
  let down_payment := property_value * down_payment_percent / 100 in
  let loan_amount := property_value - down_payment in
  emi <- calculate_emi loan_amount annual_interest_rate tenure_years ;;
  let monthly_rate := annual_interest_rate / inject_Z (12 * 100) in
  let balance := loan_amount in
  st <- for_each
          (month_body emi monthly_rate base_monthly_rent annual_rent_increase
                      vacancy_months)
          (py_range 1 (tenure_years * 12 + 1)) (balance, []) ;;
  Ok (snd st, emi).

(** ** The break-even scan of the summary *)

(** [Series.unique()]: the distinct values in order of first appearance. *)
Fixpoint unique (xs : list Z) : list Z :=
  match xs with
  | [] => []
  | x :: rest => x :: filter (fun y => negb (y =? x)%Z) (unique rest)
  end.

Definition Qsum (xs : list Q) : Q := fold_right Qplus 0 xs.

(** [Series.mean()]: [None] stands for the NaN of an empty series. *)
Definition mean (xs : list Q) : option Q :=
  match xs with
  | [] => None
  | _ => Some (Qsum xs / inject_Z (Z.of_nat (length xs)))
  end.

(** [df[df["Year"] == year]["Rent Received"].mean()]. *)
Definition yearly_rent_mean (df : list Row) (year : Z) : option Q :=
  mean (map Rent_Received (filter (fun row => (Year row =? year)%Z) df)).

(** [m >= emi]; a comparison with NaN is false. *)
Definition mean_ge (m : option Q) (emi : Q) : bool :=
  match m with
  | Some x => Qle_bool emi x
  | None => false
  end.

(** The loop that sets [break_even_year] and breaks at the first hit. *)
Definition break_even_year (df : list Row) (emi : Q) : option Z :=
  find (fun year => mean_ge (yearly_rent_mean df year) emi)
       (unique (map Year df)).

(** The mean rent of [year] is a number that is at least [emi]. *)
Definition year_qualifies (df : list Row) (emi : Q) (year : Z) : Prop :=
  exists m, yearly_rent_mean df year = Some m /\ emi <= m.

(** ** The schedule, row by row

    The loop above unrolls into one row per month; these definitions name
    the pieces of one iteration so that the rows can be addressed by index. *)

Section Rows.

Variables emi monthly_rate : Q.
Variables base_monthly_rent annual_rent_increase : Q.
Variable vacancy_months : Z.

(** [escalated_rent] of the iteration of [month]. *)
Definition escalated_rent (month : Z) : Q :=
  base_monthly_rent * (1 + annual_rent_increase / 100) ^ ((month - 1) / 12).

(** [effective_rent] of the iteration of [month]. *)
Definition effective_rent (month : Z) : Q :=
  if is_vacant vacancy_months month then 0 else escalated_rent month.

(** The running [balance] at the end of an iteration entered with
    [balance]. *)
Definition next_balance (balance : Q) : Q :=
  balance - (emi - balance * monthly_rate).

(** The running [balance] after [k] iterations. *)
Fixpoint balance_after (loan_amount : Q) (k : nat) : Q :=
  match k with
  | O => loan_amount
  | S k' => next_balance (balance_after loan_amount k')
  end.

(** The row appended by the iteration of [month] entered with
    [balance]. *)
Definition row_at (balance : Q) (month : Z) : Row :=
  {| Year := (month - 1) / 12 + 1;
     Month := month;
     Principal_Paid := round2 (emi - balance * monthly_rate);
     Interest_Charged := round2 (balance * monthly_rate);
     Total_EMI := round2 emi;
     Outstanding_Balance := round2 (py_max (next_balance balance) 0);
     Rent_Received := round2 (effective_rent month);
     Amount_Paid_by_User := round2 (emi - effective_rent month) |}.

(** The rows of the first [n] months of a loan of [loan_amount]. *)
Definition schedule (loan_amount : Q) (n : nat) : list Row :=
  map (fun k => row_at (balance_after loan_amount k) (1 + Z.of_nat k))
      (seq 0 n).

End Rows.

(** The loan side of a row: every field but the two rent fields. *)
Definition loan_view (row : Row) : Z * Z * Q * Q * Q * Q :=
  (Year row, Month row, Principal_Paid row, Interest_Charged row,
   Total_EMI row, Outstanding_Balance row).

(** The rows of a 12-row window that starts at index [s]. *)
Definition window12 (s : nat) (rows : list Row) : list Row :=
  firstn 12 (skipn s rows).

(** How many rows of a list report no rent. *)
Definition zero_rent_count (rows : list Row) : nat :=
  length (filter (fun row => Qeq_bool (Rent_Received row) 0) rows).

(** ** The page around the schedule: year filter and summary *)

(** [sorted(xs)] on integers, as an insertion sort: the result of a sort of
    integers does not depend on the algorithm. *)
Fixpoint insert_sorted (x : Z) (l : list Z) : list Z :=
  match l with
  | [] => [x]
  | y :: rest => if (x <=? y)%Z then x :: l else y :: insert_sorted x rest
  end.

Definition py_sorted (xs : list Z) : list Z := fold_right insert_sorted [] xs.

(** [year_options = sorted(df["Year"].unique())]. *)
Definition year_options (df : list Row) : list Z :=
  py_sorted (unique (map Year df)).

(** [year_df = df[df["Year"] == selected_year]]. *)
Definition year_df (df : list Row) (selected_year : Z) : list Row :=
  filter (fun row => (Year row =? selected_year)%Z) df.

(** One entry of the column
    [df["Cashflow Positive"] = df["Rent Received"] >= df["Total EMI"]]. *)
Definition cashflow_positive (row : Row) : bool :=
  Qle_bool (Total_EMI row) (Rent_Received row).

(** [ending_rent]: the rent of the summary line, grown over
    [ending_year_index = tenure_years - 1] years. *)
Definition ending_rent (monthly_rent annual_rent_increase : Q)
    (tenure_years : Z) : result Q :=
  let ending_year_index := (tenure_years - 1)%Z in
  growth <- py_pow (1 + annual_rent_increase / 100) ending_year_index ;;
  Ok (monthly_rent * growth).

(** The years [1 .. n], in order. *)
Definition years_upto (n : Z) : list Z :=
  map (fun i => (Z.of_nat i + 1)%Z) (seq 0 (Z.to_nat n)).

(** ** The input ranges of the page *)

(** The loan inputs the page offers: a down payment of 0 to 50 percent, a
    rate of 5 to 15 percent, a tenure of 5 to 30 years; the property value
    is an amount between one unit and a billion. *)
Definition supported_loan
    (property_value down_payment_percent annual_interest_rate : Q)
    (tenure_years : Z) : Prop :=
  (1 <= property_value /\ property_value <= 1000000000)
  /\ (0 <= down_payment_percent /\ down_payment_percent <= 50)
  /\ (5 <= annual_interest_rate /\ annual_interest_rate <= 15)
  /\ (5 <= tenure_years <= 30)%Z.

(** The rent inputs the page offers: a yearly increase of 0 to 15 percent
    and 0 to 3 vacancy months; the monthly rent is an amount between one
    cent and ten million. *)
Definition supported_rent
    (base_monthly_rent annual_rent_increase : Q) (vacancy_months : Z)
  : Prop :=
  ((1 # 100) <= base_monthly_rent /\ base_monthly_rent <= 10000000)
  /\ (0 <= annual_rent_increase /\ annual_rent_increase <= 15)
  /\ (0 <= vacancy_months <= 3)%Z.

(** ** The same code on binary64 numbers *)

Module Binary64.

(** The exceptions that float arithmetic raises in Python. *)
Inductive exn : Set := ZeroDivisionError | OverflowError.

Inductive result (A : Type) : Type :=
| Ok (a : A)
| Raise (e : exn).

Arguments Ok {A} a.
Arguments Raise {A} e.

Definition bind {A B : Type} (c : result A) (k : A -> result B) : result B :=
  match c with
  | Ok a => k a
  | Raise e => Raise e
  end.

Notation "x <~ c ;; k" := (bind c (fun x => k))
  (at level 61, c at next level, right associativity).

(** A Python float: an IEEE 754 binary64 number. *)
Definition prec : Z := 53.
Definition emax : Z := 1024.
Definition float : Set := spec_float.

(** The value [m * 2^e] of a positive finite float. *)
Definition pos_value (m : positive) (e : Z) : Q := inject_Z (Zpos m) * 2 ^ e.

(** The float nearest to a rational, ties to even, infinite beyond the
    largest float: how Python reads a decimal literal and converts an
    integer. *)
Definition of_Q (q : Q) : float :=
  let nearest s a :=
    let '(m, e, l) :=
      SFdiv_core_binary prec emax (Zpos a) 0 (Zpos (Qden q)) 0 in
    binary_round_aux prec emax s m e l in
  match Qnum q with
  | Z0 => S754_zero false
  | Zpos a => nearest false a
  | Zneg a => nearest true a
  end.

Definition of_Z (z : Z) : float := of_Q (inject_Z z).

Definition zero : float := S754_zero false.
Definition one : float := of_Z 1.

(** [+], [-], [*] and [/] of the processor. *)
Definition fadd : float -> float -> float := SFadd prec emax.
Definition fsub : float -> float -> float := SFsub prec emax.
Definition fmul : float -> float -> float := SFmul prec emax.
Definition fdiv : float -> float -> float := SFdiv prec emax.

(** [a / b]: Python raises on a zero divisor of either sign. *)
Definition py_div (a b : float) : result float :=
  if SFeqb b zero then Raise ZeroDivisionError else Ok (fdiv a b).

(** [iv ** n] with an integer exponent, after [float_pow] of CPython: the
    cases it settles itself (a zero exponent, NaN, the infinities, zero,
    the bases 1 and -1), then C's [pow] on the absolute value, taken to
    return the float nearest to the exact power, and [OverflowError] when
    that is infinite. *)
Definition py_pow (iv : float) (n : Z) : result float :=
  if (n =? 0)%Z then Ok one else
  match iv with
  | S754_nan => Ok iv
  | S754_infinity s =>
      if (0 <? n)%Z then Ok (if Z.odd n then iv else S754_infinity false)
      else Ok (if Z.odd n then S754_zero s else zero)
  | S754_zero s =>
      if (n <? 0)%Z then Raise ZeroDivisionError
      else Ok (if Z.odd n then iv else zero)
  | S754_finite s m e =>
      let negate_result := s && Z.odd n in
      if SFeqb (S754_finite false m e) one
      then Ok (if negate_result then SFopp one else one)
      else
        let ix := of_Q (pos_value m e ^ n) in
        match ix with
        | S754_infinity _ => Raise OverflowError
        | _ => Ok (if negate_result then SFopp ix else ix)
        end
  end.

(** [max(a, b)]: the first argument unless the second is strictly greater. *)
Definition py_max (a b : float) : float :=
  if SFltb a b then b else a.

(** [round(x, 2)]: infinities and NaN round to themselves; a finite [x]
    goes to the float nearest to the two-decimal number that is nearest to
    the exact value of [x], ties to even, with the sign of [x]. *)
Definition round2 (x : float) : float :=
  match x with
  | S754_finite s m e =>
      match round_half_even (pos_value m e * 100) with
      | Z0 => S754_zero s
      | z => let y := of_Q (inject_Z z / 100) in if s then SFopp y else y
      end
  | _ => x
  end.

Definition calculate_emi (P annual_rate : float) (years : Z) : result float :=
  let r := fdiv annual_rate (of_Z (12 * 100)) in
  let n := (years * 12)%Z in
  num_pow <~ py_pow (fadd one r) n ;;
  den_pow <~ py_pow (fadd one r) n ;;
  emi <~ py_div (fmul (fmul P r) num_pow) (fsub den_pow one) ;;
  Ok emi.

Record Row : Type := mkRow {
  Year : Z;
  Month : Z;
  Principal_Paid : float;
  Interest_Charged : float;
  Total_EMI : float;
  Outstanding_Balance : float;
  Rent_Received : float;
  Amount_Paid_by_User : float
}.

Fixpoint for_each {S A : Type} (body : S -> A -> result S)
         (xs : list A) (st : S) : result S :=
  match xs with
  | [] => Ok st
  | x :: rest => st' <~ body st x ;; for_each body rest st'
  end.

(** The body of [for month in range(1, tenure_years * 12 + 1)]. *)
Definition month_body
    (emi monthly_rate base_monthly_rent annual_rent_increase : float)
    (vacancy_months : Z) (st : float * list Row) (month : Z)
  : result (float * list Row) :=
  let '(balance, rows) := st in
  let year := ((month - 1) / 12)%Z in
  growth <~ py_pow (fadd one (fdiv annual_rent_increase (of_Z 100))) year ;;
  let escalated_rent := fmul base_monthly_rent growth in
  let effective_rent :=
    if is_vacant vacancy_months month then zero else escalated_rent in
  let interest := fmul balance monthly_rate in
  let principal := fsub emi interest in
  let balance := fsub balance principal in
  Ok (balance,
      rows ++ [ {| Year := year + 1;
                   Month := month;
                   Principal_Paid := round2 principal;
                   Interest_Charged := round2 interest;
                   Total_EMI := round2 emi;
                   Outstanding_Balance := round2 (py_max balance zero);
                   Rent_Received := round2 effective_rent;
                   Amount_Paid_by_User := round2 (fsub emi effective_rent) |} ]).

Definition generate_amortization
    (property_value down_payment_percent annual_interest_rate : float)
    (tenure_years : Z)
    (base_monthly_rent annual_rent_increase : float)
    (vacancy_months : Z) : result (list Row * float) :=
  let down_payment :=
    fdiv (fmul property_value down_payment_percent) (of_Z 100) in
  let loan_amount := fsub property_value down_payment in
  emi <~ calculate_emi loan_amount annual_interest_rate tenure_years ;;
  let monthly_rate := fdiv annual_interest_rate (of_Z (12 * 100)) in
  let balance := loan_amount in
  st <~ for_each
          (month_body emi monthly_rate base_monthly_rent annual_rent_increase
                      vacancy_months)
          (py_range 1 (tenure_years * 12 + 1)) (balance, []) ;;
  Ok (snd st, emi).

End Binary64.

(** * Properties *)

(** ** The arithmetic primitives *)

Lemma py_div_ok (a b : Q) : ~ b == 0 -> py_div a b = Ok (a / b).
Proof.
  intros Hb. unfold py_div.
  destruct (Qeq_bool b 0) eqn:E; [|reflexivity].
  apply Qeq_bool_iff in E. contradiction.
Qed.

Lemma py_div_zero (a b : Q) : b == 0 -> py_div a b = Raise ZeroDivisionError.
Proof.
  intros Hb. unfold py_div.
  apply Qeq_bool_iff in Hb. now rewrite Hb.
Qed.

Lemma py_pow_nonzero (b : Q) (n : Z) : ~ b == 0 -> py_pow b n = Ok (b ^ n).
Proof.
  intros Hb. unfold py_pow.
  destruct (Qeq_bool b 0) eqn:E; [|reflexivity].
  apply Qeq_bool_iff in E. contradiction.
Qed.

Lemma py_pow_nonneg (b : Q) (n : Z) : (0 <= n)%Z -> py_pow b n = Ok (b ^ n).
Proof.
  intros Hn. unfold py_pow.
  replace (n <? 0)%Z with false by (symmetry; apply Z.ltb_ge; exact Hn).
  now rewrite andb_false_r.
Qed.

Lemma monthly_rate_pos (annual_rate : Q) :
  0 < annual_rate -> 0 < annual_rate / inject_Z (12 * 100).
Proof.
  intros H. apply Qlt_shift_div_l; [reflexivity|]. now rewrite Qmult_0_l.
Qed.

Lemma growth_gt_1 (r : Q) (n : Z) : 0 < r -> (0 < n)%Z -> 1 < (1 + r) ^ n.
Proof.
  intros Hr Hn. apply Qpower_1_lt; [lra | exact Hn].
Qed.

(** ** calculate_emi *)

(** With a positive rate and a positive tenure the installment is computed,
    whatever the principal. *)
Lemma calculate_emi_ok (P annual_rate : Q) (years : Z) :
  0 < annual_rate -> (0 < years)%Z ->
  calculate_emi P annual_rate years
  = Ok (P * (annual_rate / inject_Z (12 * 100))
        * (1 + annual_rate / inject_Z (12 * 100)) ^ (years * 12)
        / ((1 + annual_rate / inject_Z (12 * 100)) ^ (years * 12) - 1)).
Proof.
  intros Hrate Hyears.
  set (r := annual_rate / inject_Z (12 * 100)).
  set (n := (years * 12)%Z).
  assert (Hr : 0 < r) by (apply monthly_rate_pos; exact Hrate).
  assert (Hn : (0 < n)%Z) by (unfold n; lia).
  assert (Hg : 1 < (1 + r) ^ n) by (apply growth_gt_1; assumption).
  unfold calculate_emi. fold r n.
  rewrite py_pow_nonzero by lra. cbn [bind].
  rewrite py_div_ok by lra. reflexivity.
Qed.

(** C2: with an annual rate of exactly zero the call is rejected: the
    division raises, and no number (so no NaN or infinity) is returned. *)
Theorem calculate_emi_zero_rate (P annual_rate : Q) (years : Z) :
  annual_rate == 0 ->
  calculate_emi P annual_rate years = Raise ZeroDivisionError.
Proof.
  intros H0. unfold calculate_emi.
  set (r := annual_rate / inject_Z (12 * 100)).
  assert (Hr : r == 0) by (unfold r; rewrite H0; reflexivity).
  assert (H1 : 1 + r == 1) by (rewrite Hr; reflexivity).
  rewrite py_pow_nonzero by (rewrite H1; discriminate). cbn [bind].
  rewrite py_div_zero; [reflexivity|].
  rewrite H1, Qpower_1. reflexivity.
Qed.

Lemma calculate_emi_zero_rate_witness :
  calculate_emi 19800000 0 20 = Raise ZeroDivisionError.
Proof.
  apply (calculate_emi_zero_rate 19800000 0 20). reflexivity.
Defined.

Lemma Qpower_step (a : Q) (k : Z) : (0 <= k)%Z -> a ^ (k + 1) == a ^ k * a.
Proof.
  intros Hk. rewrite Qpower_plus' by lia. now rewrite Qpower_1_r.
Qed.

Lemma growth_ge_1 (r : Q) (k : Z) : 0 <= r -> (0 <= k)%Z -> 1 <= (1 + r) ^ k.
Proof.
  intros Hr Hk. apply Qpower_1_le; [lra | exact Hk].
Qed.

(** The compound growth over [k] periods is at most [k] times the interest
    on the grown amount: [(1 + r)^k - 1 <= k * r * (1 + r)^k]. *)
Lemma growth_bound (r : Q) (k : nat) :
  0 <= r ->
  (1 + r) ^ Z.of_nat k - 1
  <= inject_Z (Z.of_nat k) * r * (1 + r) ^ Z.of_nat k.
Proof.
  intros Hr. induction k as [|k IH].
  - cbn. change (inject_Z 0) with 0. lra.
  - rewrite Nat2Z.inj_succ. unfold Z.succ.
    rewrite Qpower_step by lia. rewrite inject_Z_plus.
    pose proof (growth_ge_1 r (Z.of_nat k) Hr (Nat2Z.is_nonneg k)) as Hx.
    assert (HK : 0 <= inject_Z (Z.of_nat k)).
    { change 0 with (inject_Z 0). rewrite <- Zle_Qle. lia. }
    set (x := (1 + r) ^ Z.of_nat k) in *.
    set (K := inject_Z (Z.of_nat k)) in *.
    change (inject_Z 1) with 1.
    nra.
Qed.

(** In exact arithmetic the installment is strictly positive and
    [emi * years * 12] is at least the principal. *)
Lemma exact_emi_covers_principal (P annual_rate : Q) (years : Z) :
  0 < P -> 0 < annual_rate -> (0 < years)%Z ->
  exists emi,
    calculate_emi P annual_rate years = Ok emi
    /\ 0 < emi
    /\ P <= emi * inject_Z years * 12.
Proof.
  intros HP Hrate Hyears.
  pose proof (calculate_emi_ok P annual_rate years Hrate Hyears) as Hemi.
  set (r := annual_rate / inject_Z (12 * 100)) in *.
  set (n := (years * 12)%Z) in *.
  assert (Hr : 0 < r) by (apply monthly_rate_pos; exact Hrate).
  assert (Hn : (0 < n)%Z) by (unfold n; lia).
  assert (Hg : 1 < (1 + r) ^ n) by (apply growth_gt_1; assumption).
  assert (Hb : (1 + r) ^ n - 1 <= inject_Z n * r * (1 + r) ^ n).
  { pose proof (growth_bound r (Z.to_nat n) (Qlt_le_weak _ _ Hr)) as B.
    rewrite Z2Nat.id in B by lia. exact B. }
  assert (HN : inject_Z years * 12 == inject_Z n).
  { unfold n. rewrite inject_Z_mult. reflexivity. }
  eexists. split; [exact Hemi|].
  set (x := (1 + r) ^ n) in *.
  split.
  - apply Qlt_shift_div_l; [lra|]. rewrite Qmult_0_l.
    apply Qmult_lt_0_compat; [apply Qmult_lt_0_compat|]; lra.
  - rewrite <- Qmult_assoc, HN.
    setoid_replace (P * r * x / (x - 1) * inject_Z n)
      with (P * (inject_Z n * r * x) / (x - 1)) by (field; lra).
    apply Qle_shift_div_l; [lra|].
    apply Qmult_le_l; [exact HP | exact Hb].
Qed.

(** ** The loop of generate_amortization, unrolled *)

Section Loop.

Variables emi monthly_rate : Q.
Variables base_monthly_rent annual_rent_increase : Q.
Variable vacancy_months : Z.

Let body := month_body emi monthly_rate base_monthly_rent
                       annual_rent_increase vacancy_months.
Let row := row_at emi monthly_rate base_monthly_rent
                  annual_rent_increase vacancy_months.
Let next := next_balance emi monthly_rate.
Let bal := balance_after emi monthly_rate.

Lemma month_body_ok (balance : Q) (rows : list Row) (month : Z) :
  (1 <= month)%Z ->
  body (balance, rows) month
  = Ok (next balance, rows ++ [row balance month]).
Proof.
  intros Hm. unfold body, month_body.
  rewrite py_pow_nonneg by (apply Z.div_pos; lia).
  reflexivity.
Qed.

Lemma balance_after_shift (loan_amount : Q) (k : nat) :
  bal (next loan_amount) k = bal loan_amount (S k).
Proof.
  induction k as [|k IH]; [reflexivity|].
  unfold bal in *. cbn [balance_after]. now rewrite IH.
Qed.

Lemma for_each_months (len s : nat) (balance : Q) (rows : list Row) :
  for_each body (map (fun i => (1 + Z.of_nat i)%Z) (seq s len))
           (balance, rows)
  = Ok (bal balance len,
        rows ++ map (fun k => row (bal balance (k - s)) (1 + Z.of_nat k))
                    (seq s len)).
Proof.
  revert s balance rows. induction len as [|len IH]; intros s balance rows.
  - cbn. now rewrite app_nil_r.
  - cbn [seq map for_each].
    rewrite month_body_ok by lia. cbn [bind].
    rewrite IH. f_equal. f_equal.
    + apply balance_after_shift.
    + rewrite <- app_assoc. f_equal. cbn [app].
      rewrite Nat.sub_diag. f_equal.
      apply map_ext_in. intros k Hk. apply in_seq in Hk.
      fold (next balance). rewrite balance_after_shift.
      do 2 f_equal. lia.
Qed.

End Loop.

(** Whenever the installment can be computed, the call returns it together
    with the unrolled schedule of [tenure_years * 12] rows. *)
Lemma generate_amortization_rows
    (property_value down_payment_percent annual_interest_rate : Q)
    (tenure_years : Z)
    (base_monthly_rent annual_rent_increase : Q)
    (vacancy_months : Z) (emi : Q) :
  let loan_amount :=
    property_value - property_value * down_payment_percent / 100 in
  calculate_emi loan_amount annual_interest_rate tenure_years = Ok emi ->
  generate_amortization property_value down_payment_percent
    annual_interest_rate tenure_years base_monthly_rent annual_rent_increase
    vacancy_months
  = Ok (schedule emi (annual_interest_rate / inject_Z (12 * 100))
                 base_monthly_rent annual_rent_increase vacancy_months
                 loan_amount (Z.to_nat (tenure_years * 12)),
        emi).
Proof.
  intros loan_amount Hemi. unfold generate_amortization.
  fold loan_amount. rewrite Hemi. cbn [bind]. unfold py_range.
  replace (tenure_years * 12 + 1 - 1)%Z with (tenure_years * 12)%Z by lia.
  rewrite for_each_months. cbn [bind snd app]. unfold schedule.
  do 2 f_equal. apply map_ext. intros k. now rewrite Nat.sub_0_r.
Qed.

Lemma generate_amortization_raises
    (property_value down_payment_percent annual_interest_rate : Q)
    (tenure_years : Z)
    (base_monthly_rent annual_rent_increase : Q)
    (vacancy_months : Z) (e : exn) :
  calculate_emi (property_value - property_value * down_payment_percent / 100)
                annual_interest_rate tenure_years = Raise e ->
  generate_amortization property_value down_payment_percent
    annual_interest_rate tenure_years base_monthly_rent annual_rent_increase
    vacancy_months
  = Raise e.
Proof.
  intros Hemi. unfold generate_amortization. now rewrite Hemi.
Qed.

(** ** Rounding *)

Lemma round_half_even_comp (x y : Q) :
  x == y -> round_half_even x = round_half_even y.
Proof.
  intros H. unfold round_half_even.
  assert (Hf : Qfloor x = Qfloor y) by (now rewrite H).
  rewrite Hf.
  assert (Hc : Qcompare (x - inject_Z (Qfloor y)) (1 # 2)
               = Qcompare (y - inject_Z (Qfloor y)) (1 # 2))
    by (now rewrite H).
  now rewrite Hc.
Qed.

Lemma floor_bounds (x : Q) :
  inject_Z (Qfloor x) <= x /\ x < inject_Z (Qfloor x) + 1.
Proof.
  split; [apply Qfloor_le|].
  pose proof (Qlt_floor x) as H. rewrite inject_Z_plus in H. exact H.
Qed.

(** The rounded integer is within one half of the number. *)
Lemma round_half_even_near (x : Q) :
  - (1 # 2) <= inject_Z (round_half_even x) - x <= 1 # 2.
Proof.
  unfold round_half_even.
  destruct (floor_bounds x) as [Hlo Hhi].
  destruct (Qcompare_spec (x - inject_Z (Qfloor x)) (1 # 2)) as [E|E|E];
    try destruct (Z.even (Qfloor x));
    rewrite ?inject_Z_plus; change (inject_Z 1) with 1; lra.
Qed.

Lemma round_half_even_mono (x y : Q) :
  x <= y -> (round_half_even x <= round_half_even y)%Z.
Proof.
  intros Hxy.
  pose proof (Qfloor_resp_le x y Hxy) as Hf.
  destruct (floor_bounds x) as [Hxlo Hxhi].
  destruct (floor_bounds y) as [Hylo Hyhi].
  unfold round_half_even.
  destruct (Z.eq_dec (Qfloor x) (Qfloor y)) as [e|ne].
  - rewrite e in *.
    destruct (Qcompare_spec (x - inject_Z (Qfloor y)) (1 # 2)) as [Ex|Ex|Ex];
      destruct (Qcompare_spec (y - inject_Z (Qfloor y)) (1 # 2)) as [Ey|Ey|Ey];
      destruct (Z.even (Qfloor y)); try lia; exfalso; lra.
  - destruct (Qcompare (x - inject_Z (Qfloor x)) (1 # 2));
      destruct (Qcompare (y - inject_Z (Qfloor y)) (1 # 2));
      destruct (Z.even (Qfloor x)); destruct (Z.even (Qfloor y)); lia.
Qed.

Lemma round_half_even_Z (z : Z) : round_half_even (inject_Z z) = z.
Proof.
  unfold round_half_even. rewrite Qfloor_Z.
  destruct (Qcompare_spec (inject_Z z - inject_Z z) (1 # 2)) as [E|E|E];
    [exfalso; lra | reflexivity | exfalso; lra].
Qed.

Lemma round2_comp (x y : Q) : x == y -> round2 x == round2 y.
Proof.
  intros H. unfold round2.
  rewrite (round_half_even_comp (x * 100) (y * 100)) by (now rewrite H).
  reflexivity.
Qed.

Lemma round2_mono (x y : Q) : x <= y -> round2 x <= round2 y.
Proof.
  intros H. unfold round2.
  assert (Hz : (round_half_even (x * 100) <= round_half_even (y * 100))%Z)
    by (apply round_half_even_mono; lra).
  rewrite Zle_Qle in Hz.
  apply Qmult_le_compat_r; [exact Hz | discriminate].
Qed.

Lemma round2_0 : round2 0 == 0.
Proof. reflexivity. Qed.

(** A rounded amount is within half a cent of the amount. *)
Lemma round2_near (x : Q) : - (1 # 200) <= round2 x - x <= 1 # 200.
Proof.
  pose proof (round_half_even_near (x * 100)) as H. unfold round2.
  set (z := inject_Z (round_half_even (x * 100))) in *.
  assert (E : z / 100 - x == (z - x * 100) / 100) by field.
  rewrite E. split.
  - apply Qle_shift_div_l; [reflexivity | lra].
  - apply Qle_shift_div_r; [reflexivity | lra].
Qed.

Lemma round2_nonneg (x : Q) : 0 <= x -> 0 <= round2 x.
Proof.
  intros H. rewrite <- round2_0. now apply round2_mono.
Qed.

Lemma py_max_0_nonneg (a : Q) : 0 <= py_max a 0.
Proof.
  unfold py_max. destruct (Qle_bool 0 a) eqn:E; [|apply Qle_refl].
  now apply Qle_bool_iff in E.
Qed.

Lemma py_max_0_mono (a b : Q) : a <= b -> py_max a 0 <= py_max b 0.
Proof.
  intros H. unfold py_max.
  destruct (Qle_bool 0 a) eqn:Ea; destruct (Qle_bool 0 b) eqn:Eb;
    try apply Qle_bool_iff in Ea; try apply Qle_bool_iff in Eb;
    try lra.
  exfalso. assert (Hb : Qle_bool 0 b = true) by (apply Qle_bool_iff; lra).
  congruence.
Qed.

Lemma py_max_0_comp (a b : Q) : a == b -> py_max a 0 == py_max b 0.
Proof.
  intros H. apply Qle_antisym; apply py_max_0_mono; rewrite H; apply Qle_refl.
Qed.

(** ** The running balance of a valid loan *)

Section Amortisation.

Variables (L r : Q) (n : Z).
Hypothesis L_pos : 0 < L.
Hypothesis r_pos : 0 < r.
Hypothesis n_pos : (0 < n)%Z.

Let x := (1 + r) ^ n.
Let emi := L * r * (1 + r) ^ n / ((1 + r) ^ n - 1).

Lemma growth_n_gt_1 : 1 < x.
Proof. apply growth_gt_1; assumption. Qed.

(** After [k] payments the balance is
    [L * ((1 + r)^n - (1 + r)^k) / ((1 + r)^n - 1)]. *)
Lemma balance_closed_form (k : nat) :
  balance_after emi r L k == L * (x - (1 + r) ^ Z.of_nat k) / (x - 1).
Proof.
  pose proof growth_n_gt_1 as Hx.
  induction k as [|k IH].
  - cbn. field. lra.
  - cbn [balance_after]. unfold next_balance. rewrite IH.
    rewrite Nat2Z.inj_succ. unfold Z.succ.
    rewrite Qpower_step by lia.
    unfold emi. fold x. field. lra.
Qed.

Lemma balance_decreasing (k : nat) :
  balance_after emi r L (S k) <= balance_after emi r L k.
Proof.
  pose proof growth_n_gt_1 as Hx.
  rewrite !balance_closed_form.
  rewrite Nat2Z.inj_succ. unfold Z.succ. rewrite Qpower_step by lia.
  pose proof (growth_ge_1 r (Z.of_nat k) (Qlt_le_weak _ _ r_pos)
                          (Nat2Z.is_nonneg k)) as Hy.
  set (y := (1 + r) ^ Z.of_nat k) in *.
  unfold Qdiv. apply Qmult_le_compat_r.
  - assert (Hp : 0 <= L * (y * r))
      by (apply Qmult_le_0_compat; [|apply Qmult_le_0_compat]; lra).
    clearbody x y. lra.
  - apply Qinv_le_0_compat. lra.
Qed.

Lemma balance_paid_off : balance_after emi r L (Z.to_nat n) == 0.
Proof.
  pose proof growth_n_gt_1 as Hx.
  rewrite balance_closed_form. rewrite Z2Nat.id by lia. fold x.
  field. lra.
Qed.

End Amortisation.

(** ** Schedules of valid loans *)

(** With a positive rate and a positive tenure the call returns the
    unrolled schedule and the installment of the annuity formula. *)
Lemma generate_amortization_ok
    (property_value down_payment_percent annual_interest_rate : Q)
    (tenure_years : Z)
    (base_monthly_rent annual_rent_increase : Q)
    (vacancy_months : Z) :
  0 < annual_interest_rate -> (0 < tenure_years)%Z ->
  let loan_amount :=
    property_value - property_value * down_payment_percent / 100 in
  let r := annual_interest_rate / inject_Z (12 * 100) in
  let n := (tenure_years * 12)%Z in
  let emi := loan_amount * r * (1 + r) ^ n / ((1 + r) ^ n - 1) in
  generate_amortization property_value down_payment_percent
    annual_interest_rate tenure_years base_monthly_rent annual_rent_increase
    vacancy_months
  = Ok (schedule emi r base_monthly_rent annual_rent_increase vacancy_months
                 loan_amount (Z.to_nat n),
        emi).
Proof.
  intros Hrate Hyears loan_amount r n emi.
  apply generate_amortization_rows.
  now apply calculate_emi_ok.
Qed.

Section ScheduleFacts.

Variables emi monthly_rate : Q.
Variables base_monthly_rent annual_rent_increase : Q.
Variable vacancy_months : Z.
Variable loan_amount : Q.
Variable n : nat.

Let rows := schedule emi monthly_rate base_monthly_rent
                     annual_rent_increase vacancy_months loan_amount n.
Let row := row_at emi monthly_rate base_monthly_rent
                  annual_rent_increase vacancy_months.
Let bal := balance_after emi monthly_rate loan_amount.

Lemma schedule_length : length rows = n.
Proof. unfold rows, schedule. now rewrite length_map, length_seq. Qed.

Lemma schedule_nth (k : nat) :
  (k < n)%nat ->
  nth_error rows k = Some (row (bal k) (1 + Z.of_nat k)).
Proof.
  intros Hk. unfold rows, schedule.
  rewrite nth_error_map, nth_error_seq.
  destruct (Nat.ltb_spec k n) as [_|Hge]; [reflexivity | lia].
Qed.

Lemma schedule_nth_inv (k : nat) (a : Row) :
  nth_error rows k = Some a ->
  (k < n)%nat /\ a = row (bal k) (1 + Z.of_nat k).
Proof.
  intros H.
  assert (Hk : (k < n)%nat).
  { rewrite <- schedule_length. apply nth_error_Some. congruence. }
  split; [exact Hk|]. rewrite schedule_nth in H by exact Hk. congruence.
Qed.

Lemma schedule_In (a : Row) :
  In a rows <->
  exists k, (k < n)%nat /\ a = row (bal k) (1 + Z.of_nat k).
Proof.
  unfold rows, schedule. rewrite in_map_iff. split.
  - intros (k & E & Hk). apply in_seq in Hk. exists k. split; [lia | now symmetry].
  - intros (k & Hk & E). exists k. split; [now symmetry | apply in_seq; lia].
Qed.

End ScheduleFacts.

(** ** The outstanding balance *)

(** In exact arithmetic the outstanding balance of a loan with a positive
    amount, rate and tenure is never negative, never increases from a row
    to the next, and is zero in the final row. *)
Lemma exact_balance_column
    (property_value down_payment_percent annual_interest_rate : Q)
    (tenure_years : Z)
    (base_monthly_rent annual_rent_increase : Q)
    (vacancy_months : Z) :
  0 < property_value - property_value * down_payment_percent / 100 ->
  0 < annual_interest_rate ->
  (0 < tenure_years)%Z ->
  exists rows emi,
    generate_amortization property_value down_payment_percent
      annual_interest_rate tenure_years base_monthly_rent
      annual_rent_increase vacancy_months = Ok (rows, emi)
    /\ (forall row, In row rows -> 0 <= Outstanding_Balance row)
    /\ (forall k a b,
          nth_error rows k = Some a -> nth_error rows (S k) = Some b ->
          Outstanding_Balance b <= Outstanding_Balance a)
    /\ (exists final,
          nth_error rows (length rows - 1) = Some final
          /\ Outstanding_Balance final == 0).
Proof.
  intros HL Hrate HT.
  eexists. eexists. split; [now apply generate_amortization_ok|].
  set (L := property_value - property_value * down_payment_percent / 100) in *.
  set (r := annual_interest_rate / inject_Z (12 * 100)).
  set (n := (tenure_years * 12)%Z).
  set (emi := L * r * (1 + r) ^ n / ((1 + r) ^ n - 1)).
  assert (Hr : 0 < r) by (apply monthly_rate_pos; exact Hrate).
  assert (Hn : (0 < n)%Z) by (unfold n; lia).
  split; [|split].
  - intros row Hin. apply schedule_In in Hin. destruct Hin as (k & _ & ->).
    cbn [Outstanding_Balance row_at].
    apply round2_nonneg, py_max_0_nonneg.
  - intros k a b Ha Hb.
    apply schedule_nth_inv in Ha. destruct Ha as (_ & ->).
    apply schedule_nth_inv in Hb. destruct Hb as (_ & ->).
    cbn [Outstanding_Balance row_at].
    apply round2_mono, py_max_0_mono.
    change (balance_after emi r L (S (S k)) <= balance_after emi r L (S k)).
    now apply balance_decreasing.
  - rewrite schedule_length.
    assert (Hk : (Z.to_nat n - 1 < Z.to_nat n)%nat) by lia.
    eexists. split; [apply schedule_nth; exact Hk|].
    cbn [Outstanding_Balance row_at].
    apply Qeq_trans with (round2 0); [|apply round2_0].
    apply round2_comp.
    apply Qeq_trans with (py_max 0 0); [|reflexivity].
    apply py_max_0_comp.
    change (balance_after emi r L (S (Z.to_nat n - 1)) == 0).
    replace (S (Z.to_nat n - 1)) with (Z.to_nat n) by lia.
    now apply balance_paid_off.
Qed.

(** ** The rent parameters and the loan side of the schedule *)

Lemma loan_view_schedule (emi monthly_rate loan_amount : Q) (n : nat)
    (rent1 inc1 : Q) (vac1 : Z) (rent2 inc2 : Q) (vac2 : Z) :
  map loan_view (schedule emi monthly_rate rent1 inc1 vac1 loan_amount n)
  = map loan_view (schedule emi monthly_rate rent2 inc2 vac2 loan_amount n).
Proof.
  unfold schedule. rewrite !map_map. apply map_ext. intros k. reflexivity.
Qed.


(** ** Rounded fields of one row *)

(** Three amounts rounded one by one: when [p + i] is [e], the rounded
    [p] and [i] add up to the rounded [e] or miss it by one cent. *)
Lemma round2_sum_near (p i e : Q) :
  p + i == e ->
  Qabs (round2 p + round2 i - round2 e) <= 1 # 100.
Proof.
  intros Hsum. unfold round2.
  pose proof (round_half_even_near (p * 100)) as Hp.
  pose proof (round_half_even_near (i * 100)) as Hi.
  pose proof (round_half_even_near (e * 100)) as He.
  set (a := round_half_even (p * 100)) in *.
  set (b := round_half_even (i * 100)) in *.
  set (c := round_half_even (e * 100)) in *.
  assert (Hz : (-1 <= a + b - c <= 1)%Z).
  { assert (Hq : - (2) < inject_Z (a + b - c) < 2).
    { unfold Zminus. rewrite !inject_Z_plus, inject_Z_opp. lra. }
    destruct Hq as [Hlo Hhi].
    change (- (2)) with (inject_Z (-2)) in Hlo.
    change 2 with (inject_Z 2) in Hhi.
    rewrite <- Zlt_Qlt in Hlo, Hhi. lia. }
  assert (E : inject_Z a / 100 + inject_Z b / 100 - inject_Z c / 100
              == inject_Z (a + b - c) / 100).
  { unfold Zminus. rewrite !inject_Z_plus, inject_Z_opp. field. }
  rewrite E. apply Qabs_Qle_condition.
  destruct Hz as [Hlo Hhi]. rewrite Zle_Qle in Hlo, Hhi.
  change (inject_Z (-1)) with (- (1)) in Hlo.
  change (inject_Z 1) with 1 in Hhi.
  split.
  - apply Qle_shift_div_l; [reflexivity | lra].
  - apply Qle_shift_div_r; [reflexivity | lra].
Qed.



(** ** Rent escalation *)

Lemma round2_abs_near (x : Q) : Qabs (round2 x - x) <= 1 # 200.
Proof. apply Qabs_Qle_condition. apply round2_near. Qed.

Lemma escalated_rent_ratio (base inc : Q) (m1 m2 : Z) :
  0 < base -> 0 <= inc ->
  escalated_rent base inc m2 / escalated_rent base inc m1
  == (1 + inc / 100) ^ ((m2 - 1) / 12 - (m1 - 1) / 12).
Proof.
  intros Hbase Hinc. unfold escalated_rent.
  assert (Hg : 0 < 1 + inc / 100).
  { assert (0 <= inc / 100) by (apply Qle_shift_div_l; [reflexivity | lra]).
    lra. }
  set (g := 1 + inc / 100) in *.
  rewrite Qpower_minus by lra.
  pose proof (Qpower_0_lt g ((m1 - 1) / 12) Hg) as H1.
  field. split; lra.
Qed.


(** ** Vacancy *)

Lemma is_vacant_spec (v month : Z) :
  is_vacant v month = true <-> ((month - 1) mod 12 >= 12 - v)%Z.
Proof.
  unfold is_vacant. rewrite Z.geb_leb, Z.leb_le. lia.
Qed.

(** The vacancy pattern repeats every 12 months. *)
Lemma is_vacant_period (v month : Z) :
  is_vacant v (month + 12) = is_vacant v month.
Proof.
  unfold is_vacant.
  replace (month + 12 - 1)%Z with (month - 1 + 1 * 12)%Z by lia.
  now rewrite Z.mod_add by lia.
Qed.

(** An amount above half a cent does not round to zero. *)
Lemma round2_pos (x : Q) : 1 # 200 < x -> 0 < round2 x.
Proof.
  intros Hx. unfold round2.
  pose proof (round_half_even_near (x * 100)) as H.
  apply Qlt_shift_div_l; [reflexivity|]. lra.
Qed.

Lemma escalated_rent_ge_base (base inc : Q) (month : Z) :
  0 <= base -> 0 <= inc -> (1 <= month)%Z ->
  base <= escalated_rent base inc month.
Proof.
  intros Hbase Hinc Hm. unfold escalated_rent.
  assert (Hi : 0 <= inc / 100) by (apply Qle_shift_div_l; [reflexivity | lra]).
  pose proof (growth_ge_1 (inc / 100) ((month - 1) / 12) Hi) as Hg.
  assert (Hy : (0 <= (month - 1) / 12)%Z) by (apply Z.div_pos; lia).
  specialize (Hg Hy).
  set (g := (1 + inc / 100) ^ ((month - 1) / 12)) in *.
  assert (Hp : 0 <= base * (g - 1)) by (apply Qmult_le_0_compat; lra).
  clearbody g. lra.
Qed.

(** With a rent of more than half a cent that does not shrink, a row
    reports no rent exactly in the vacant months. *)
Lemma rent_zero_iff_vacant (base inc : Q) (v month : Z) :
  1 # 200 < base -> 0 <= inc -> (1 <= month)%Z ->
  Qeq_bool (round2 (effective_rent base inc v month)) 0 = is_vacant v month.
Proof.
  intros Hbase Hinc Hm. unfold effective_rent.
  destruct (is_vacant v month); [reflexivity|].
  destruct (Qeq_bool _ 0) eqn:E; [|reflexivity].
  apply Qeq_bool_iff in E.
  assert (Hge : base <= escalated_rent base inc month)
    by (apply escalated_rent_ge_base; [lra | assumption | assumption]).
  assert (Hpos : 0 < round2 (escalated_rent base inc month))
    by (apply round2_pos; lra).
  lra.
Qed.

Lemma length_filter_map {A B : Type} (p : B -> bool) (f : A -> B)
    (l : list A) :
  length (filter p (map f l)) = length (filter (fun a => p (f a)) l).
Proof.
  induction l as [|a l IH]; [reflexivity|].
  cbn [map filter]. destruct (p (f a)); cbn [length]; now rewrite IH.
Qed.

(** Any 12 consecutive months hold [v] vacant ones. *)
Lemma vacant_in_12 (v : Z) (s : nat) :
  (0 <= v <= 12)%Z ->
  length (filter (fun k => is_vacant v (1 + Z.of_nat k)) (seq s 12))
  = Z.to_nat v.
Proof.
  intros Hv. induction s as [|s IH].
  - assert (Hcases : In v [0; 1; 2; 3; 4; 5; 6; 7; 8; 9; 10; 11; 12]%Z)
      by (cbn [In]; lia).
    cbn [In] in Hcases.
    repeat (destruct Hcases as [<-|Hcases]; [reflexivity|]).
    contradiction.
  - pose proof (seq_S 12 s) as Hback.
    change (seq s 13) with (s :: seq (S s) 12) in Hback.
    assert (Hlen : length (filter (fun k => is_vacant v (1 + Z.of_nat k))
                                  (s :: seq (S s) 12))
                   = length (filter (fun k => is_vacant v (1 + Z.of_nat k))
                                    (seq s 12 ++ [(s + 12)%nat])))
      by (now rewrite Hback).
    rewrite filter_app, length_app in Hlen. cbn [filter] in Hlen.
    replace (1 + Z.of_nat (s + 12))%Z with (1 + Z.of_nat s + 12)%Z in Hlen
      by lia.
    rewrite is_vacant_period in Hlen.
    destruct (is_vacant v (1 + Z.of_nat s)); cbn [length] in Hlen; lia.
Qed.

Lemma firstn_seq_le (m s len : nat) :
  (m <= len)%nat -> firstn m (seq s len) = seq s m.
Proof.
  revert s len. induction m as [|m IH]; intros s len Hm; [reflexivity|].
  destruct len as [|len]; [lia|].
  cbn [seq firstn]. f_equal. apply IH. lia.
Qed.

(** A window of 12 rows of the schedule holds the rows of 12 consecutive
    months. *)
Lemma window12_schedule (emi monthly_rate base inc : Q) (v : Z)
    (loan_amount : Q) (n s : nat) :
  (s + 12 <= n)%nat ->
  window12 s (schedule emi monthly_rate base inc v loan_amount n)
  = map (fun k => row_at emi monthly_rate base inc v
                         (balance_after emi monthly_rate loan_amount k)
                         (1 + Z.of_nat k))
        (seq s 12).
Proof.
  intros Hs. unfold window12, schedule.
  rewrite skipn_map, firstn_map, skipn_seq, firstn_seq_le by lia.
  reflexivity.
Qed.




(** ** The break-even scan *)

Lemma unique_In (y : Z) (l : list Z) : In y (unique l) <-> In y l.
Proof.
  induction l as [|x l IH]; [reflexivity|].
  cbn [unique In]. rewrite filter_In, IH.
  destruct (Z.eqb_spec y x) as [->|Hne]; cbn [negb]; intuition congruence.
Qed.

Lemma StronglySorted_filter_lt (p : Z -> bool) (l : list Z) :
  StronglySorted Z.lt l -> StronglySorted Z.lt (filter p l).
Proof.
  induction 1 as [|x l Hs IH Hall]; [constructor|].
  cbn [filter]. destruct (p x); [|exact IH].
  constructor; [exact IH|].
  apply Forall_forall. intros y Hy. apply filter_In in Hy.
  rewrite Forall_forall in Hall. now apply Hall.
Qed.

(** The distinct values of a non-decreasing column come out in strictly
    increasing order. *)
Lemma unique_sorted (l : list Z) :
  StronglySorted Z.le l -> StronglySorted Z.lt (unique l).
Proof.
  induction 1 as [|x l Hs IH Hall]; [constructor|].
  cbn [unique]. constructor.
  - now apply StronglySorted_filter_lt.
  - apply Forall_forall. intros y Hy. apply filter_In in Hy.
    destruct Hy as [Hy Hne]. apply (proj1 (unique_In y l)) in Hy.
    rewrite Forall_forall in Hall. specialize (Hall y Hy).
    destruct (Z.eqb_spec y x); [discriminate | lia].
Qed.

(** A scan that stops at the first hit of an increasing list finds the
    least element that passes the test. *)
Lemma find_sorted_Some (p : Z -> bool) (l : list Z) (y : Z) :
  StronglySorted Z.lt l ->
  (find p l = Some y
   <-> In y l /\ p y = true
       /\ forall y', In y' l -> (y' < y)%Z -> p y' = false).
Proof.
  induction 1 as [|x l Hs IH Hall]; cbn [find In].
  - split; [discriminate | tauto].
  - rewrite Forall_forall in Hall.
    destruct (p x) eqn:Hpx.
    + split.
      * intros [= ->]. repeat split; [now left | exact Hpx |].
        intros y' [->|Hy'] Hlt; [lia | specialize (Hall y' Hy'); lia].
      * intros ([->|Hy] & Hpy & Hleast); [reflexivity|].
        specialize (Hall y Hy).
        assert (p x = false) by (apply Hleast; [now left | lia]).
        congruence.
    + rewrite IH. split.
      * intros (Hy & Hpy & Hleast). repeat split; [now right | exact Hpy |].
        intros y' [<-|Hy'] Hlt; [exact Hpx | now apply Hleast].
      * intros ([->|Hy] & Hpy & Hleast); [congruence|].
        repeat split; [exact Hy | exact Hpy |].
        intros y' Hy' Hlt. apply Hleast; [now right | exact Hlt].
Qed.

Lemma find_None_iff (p : Z -> bool) (l : list Z) :
  find p l = None <-> forall y, In y l -> p y = false.
Proof.
  split; [apply find_none|].
  induction l as [|x l IH]; intros Hall; cbn [find]; [reflexivity|].
  rewrite (Hall x) by now left. apply IH.
  intros y Hy. apply Hall. now right.
Qed.

Lemma StronglySorted_map_seq (f : nat -> Z) (s n : nat) :
  (forall i j, (i <= j)%nat -> (f i <= f j)%Z) ->
  StronglySorted Z.le (map f (seq s n)).
Proof.
  intros Hmono. revert s. induction n as [|n IH]; intros s; cbn [seq map].
  - constructor.
  - constructor; [apply IH|].
    apply Forall_forall. intros y Hy. apply in_map_iff in Hy.
    destruct Hy as (k & <- & Hk). apply in_seq in Hk. apply Hmono. lia.
Qed.

Lemma filter_none {A : Type} (p : A -> bool) (l : list A) :
  (forall x, In x l -> p x = false) -> filter p l = [].
Proof.
  intros H. rewrite (filter_ext_in p (fun _ => false) l H).
  apply filter_false.
Qed.

Lemma filter_all {A : Type} (p : A -> bool) (l : list A) :
  (forall x, In x l -> p x = true) -> filter p l = l.
Proof.
  intros H. apply forallb_filter_id. apply forallb_forall. exact H.
Qed.

(** The year of the row at index [k] is [y] exactly for the 12 indices from
    [12 * (y - 1)]. *)
Lemma year_of_index (k : nat) (y : Z) :
  ((1 + Z.of_nat k - 1) / 12 + 1 = y)%Z
  <-> (12 * (y - 1) <= Z.of_nat k < 12 * y)%Z.
Proof. Z.to_euclidean_division_equations. lia. Qed.

Section YearColumn.

Variables emi monthly_rate : Q.
Variables base_monthly_rent annual_rent_increase : Q.
Variable vacancy_months : Z.
Variable loan_amount : Q.
Variable tenure_years : Z.
Hypothesis tenure_pos : (0 < tenure_years)%Z.

Let rows := schedule emi monthly_rate base_monthly_rent
                     annual_rent_increase vacancy_months loan_amount
                     (Z.to_nat (tenure_years * 12)).

Lemma schedule_years :
  map Year rows
  = map (fun k => ((1 + Z.of_nat k - 1) / 12 + 1)%Z)
        (seq 0 (Z.to_nat (tenure_years * 12))).
Proof. unfold rows, schedule. rewrite map_map. reflexivity. Qed.

Lemma schedule_years_In (y : Z) :
  In y (map Year rows) <-> (1 <= y <= tenure_years)%Z.
Proof.
  rewrite schedule_years, in_map_iff. split.
  - intros (k & E & Hk). apply in_seq in Hk.
    apply year_of_index in E. lia.
  - intros Hy. exists (Z.to_nat (12 * (y - 1))). split.
    + apply year_of_index. lia.
    + apply in_seq. lia.
Qed.

Lemma schedule_years_sorted : StronglySorted Z.lt (unique (map Year rows)).
Proof.
  apply unique_sorted. rewrite schedule_years.
  apply StronglySorted_map_seq. intros i j Hij.
  apply Z.add_le_mono_r. apply Z.div_le_mono; lia.
Qed.

(** Every year of the tenure has exactly 12 rows. *)
Lemma schedule_year_rows (y : Z) :
  (1 <= y <= tenure_years)%Z ->
  length (filter (fun row => (Year row =? y)%Z) rows) = 12%nat.
Proof.
  intros Hy. unfold rows, schedule. rewrite length_filter_map.
  cbn [Year row_at].
  set (a := Z.to_nat (12 * (y - 1))).
  replace (Z.to_nat (tenure_years * 12))
    with (a + (12 + (Z.to_nat (tenure_years * 12) - a - 12)))%nat
    by (unfold a; lia).
  rewrite !seq_app, !filter_app, !length_app.
  rewrite filter_none, filter_all, filter_none.
  - reflexivity.
  - intros k Hk. apply in_seq in Hk. apply Z.eqb_neq.
    rewrite year_of_index. unfold a in Hk. lia.
  - intros k Hk. apply in_seq in Hk. apply Z.eqb_eq.
    rewrite year_of_index. unfold a in Hk. lia.
  - intros k Hk. apply in_seq in Hk. apply Z.eqb_neq.
    rewrite year_of_index. unfold a in Hk. lia.
Qed.

End YearColumn.

Lemma mean_ge_qualifies (df : list Row) (emi : Q) (year : Z) :
  mean_ge (yearly_rent_mean df year) emi = true
  <-> year_qualifies df emi year.
Proof.
  unfold year_qualifies, mean_ge.
  destruct (yearly_rent_mean df year) as [m|].
  - rewrite Qle_bool_iff. split.
    + intros H. now exists m.
    + intros (m' & [= <-] & H). exact H.
  - split; [discriminate|]. intros (m & [=] & _).
Qed.

Lemma mean_ge_not_qualifies (df : list Row) (emi : Q) (year : Z) :
  mean_ge (yearly_rent_mean df year) emi = false
  <-> ~ year_qualifies df emi year.
Proof.
  rewrite <- mean_ge_qualifies.
  destruct (mean_ge (yearly_rent_mean df year) emi);
    intuition congruence.
Qed.

Lemma mean_of_12 (xs : list Q) :
  length xs = 12%nat -> mean xs = Some (Qsum xs / 12).
Proof.
  intros H. destruct xs as [|x xs]; [discriminate|].
  unfold mean. rewrite H. reflexivity.
Qed.



(** ** Concrete runs *)

Example round_half_even_ties :
  map round_half_even [1 # 2; 3 # 2; 5 # 2; - (1 # 2); - (3 # 2); 7 # 4]
  = [0; 2; 2; 0; -2; 2]%Z.
Proof. reflexivity. Qed.

Example round2_rent_of_year_4 :
  round2 (75000 * (1 + 5 / 100) ^ 3) == 8682188 # 100.
Proof. reflexivity. Qed.

Example py_range_months : py_range 1 (1 * 12 + 1)
  = [1; 2; 3; 4; 5; 6; 7; 8; 9; 10; 11; 12]%Z.
Proof. reflexivity. Qed.

Example unique_years : unique [1; 1; 1; 2; 2; 3; 3; 3]%Z = [1; 2; 3]%Z.
Proof. reflexivity. Qed.

(** The first iteration of the loop on a loan of 100000 at 12 percent with
    an installment of 2224.44: 1000 of interest, 1224.44 of principal. *)
Example first_month_run :
  match month_body (222444 # 100) (1 # 100) 1000 5 1 (100000, []) 1 with
  | Ok (balance, [row]) =>
      balance == 9877556 # 100
      /\ Year row = 1%Z /\ Month row = 1%Z
      /\ Principal_Paid row == 122444 # 100
      /\ Interest_Charged row == 1000
      /\ Total_EMI row == 222444 # 100
      /\ Outstanding_Balance row == 9877556 # 100
      /\ Rent_Received row == 1000
      /\ Amount_Paid_by_User row == 122444 # 100
  | _ => False
  end.
Proof. vm_compute. repeat split. Qed.

(** The default inputs of the page: 240 rows, no rent in month 12 (the
    vacant last month of year 1), and 78750 in month 13, the first month of
    year 2. *)
Example default_inputs_months_12_and_13 :
  exists rows emi r12 r13,
    generate_amortization 22000000 10 (37 # 5) 20 75000 5 1 = Ok (rows, emi)
    /\ length rows = 240%nat
    /\ nth_error rows 11 = Some r12
    /\ nth_error rows 12 = Some r13
    /\ (Year r12 = 1 /\ Month r12 = 12)%Z /\ Rent_Received r12 == 0
    /\ (Year r13 = 2 /\ Month r13 = 13)%Z /\ Rent_Received r13 == 78750.
Proof.
  eexists. eexists. eexists. eexists.
  split; [apply generate_amortization_ok; reflexivity|].
  split; [apply schedule_length|].
  split; [apply schedule_nth; vm_compute; lia|].
  split; [apply schedule_nth; vm_compute; lia|].
  cbn [Year Month Rent_Received row_at]. repeat split.
Qed.

(** * Further properties of the schedule and of the page *)

(** ** The shape of the schedule *)



(** ** Interest and principal over the life of a valid loan *)

Section Repayment.

Variables (L r : Q) (n : Z).
Hypothesis L_pos : 0 < L.
Hypothesis r_pos : 0 < r.
Hypothesis n_pos : (0 < n)%Z.

Let emi := L * r * (1 + r) ^ n / ((1 + r) ^ n - 1).

(** The balance is not negative before the last payment is made. *)
Lemma balance_nonneg (k : nat) :
  (Z.of_nat k <= n)%Z -> 0 <= balance_after emi r L k.
Proof.
  intros Hk. unfold emi.
  rewrite (balance_closed_form L r n r_pos n_pos k).
  pose proof (growth_n_gt_1 r n r_pos n_pos) as Hx.
  assert (Hle : (1 + r) ^ Z.of_nat k <= (1 + r) ^ n)
    by (apply Qpower_le_compat_l; [exact Hk | lra]).
  apply Qle_shift_div_l; [lra|]. rewrite Qmult_0_l.
  apply Qmult_le_0_compat; lra.
Qed.

(** The principal part of a payment is what the balance goes down by. *)
Lemma principal_is_balance_drop (k : nat) :
  emi - balance_after emi r L k * r
  == balance_after emi r L k - balance_after emi r L (S k).
Proof. cbn [balance_after]. unfold next_balance. ring. Qed.

Lemma interest_decreasing (k : nat) :
  balance_after emi r L (S k) * r <= balance_after emi r L k * r.
Proof.
  apply Qmult_le_compat_r; [|lra].
  unfold emi. now apply balance_decreasing.
Qed.

End Repayment.

(** In exact arithmetic the interest and the principal of every row of a
    loan with a positive amount, rate and tenure are not negative, the
    interest never rises from a row to the next, and the principal never
    falls. *)
Lemma exact_interest_and_principal
    (property_value down_payment_percent annual_interest_rate : Q)
    (tenure_years : Z)
    (base_monthly_rent annual_rent_increase : Q)
    (vacancy_months : Z) :
  0 < property_value - property_value * down_payment_percent / 100 ->
  0 < annual_interest_rate ->
  (0 < tenure_years)%Z ->
  exists rows emi,
    generate_amortization property_value down_payment_percent
      annual_interest_rate tenure_years base_monthly_rent
      annual_rent_increase vacancy_months = Ok (rows, emi)
    /\ (forall row, In row rows ->
          0 <= Interest_Charged row /\ 0 <= Principal_Paid row)
    /\ (forall k a b,
          nth_error rows k = Some a -> nth_error rows (S k) = Some b ->
          Interest_Charged b <= Interest_Charged a
          /\ Principal_Paid a <= Principal_Paid b).
Proof.
  intros HL Hrate HT.
  eexists. eexists. split; [now apply generate_amortization_ok|].
  set (L := property_value - property_value * down_payment_percent / 100) in *.
  set (r := annual_interest_rate / inject_Z (12 * 100)).
  set (n := (tenure_years * 12)%Z).
  set (emi := L * r * (1 + r) ^ n / ((1 + r) ^ n - 1)).
  assert (Hr : 0 < r) by (apply monthly_rate_pos; exact Hrate).
  assert (Hn : (0 < n)%Z) by (unfold n; lia).
  split.
  - intros row Hin. apply schedule_In in Hin. destruct Hin as (k & Hk & ->).
    cbn [Interest_Charged Principal_Paid row_at]. split.
    + apply round2_nonneg. apply Qmult_le_0_compat; [|lra].
      apply balance_nonneg; [assumption | assumption | assumption | lia].
    + apply round2_nonneg.
      unfold emi. rewrite principal_is_balance_drop.
      pose proof (balance_decreasing L r n HL Hr Hn k) as Hd. fold emi in Hd.
      fold emi. lra.
  - intros k a b Ha Hb.
    apply schedule_nth_inv in Ha. destruct Ha as (_ & ->).
    apply schedule_nth_inv in Hb. destruct Hb as (_ & ->).
    cbn [Interest_Charged Principal_Paid row_at].
    pose proof (interest_decreasing L r n HL Hr Hn k) as Hi. fold emi in Hi.
    split; apply round2_mono; lra.
Qed.

(** ** The year filter *)

Lemma insert_sorted_least (x : Z) (l : list Z) :
  Forall (Z.lt x) l -> insert_sorted x l = x :: l.
Proof.
  destruct l as [|y l]; [reflexivity|].
  intros H. apply Forall_inv in H. cbn [insert_sorted].
  now replace (x <=? y)%Z with true by (symmetry; apply Z.leb_le; lia).
Qed.

(** Sorting a strictly increasing list changes nothing. *)
Lemma py_sorted_increasing (l : list Z) :
  StronglySorted Z.lt l -> py_sorted l = l.
Proof.
  induction 1 as [|x l Hs IH Hall]; [reflexivity|].
  unfold py_sorted in *. cbn [fold_right]. rewrite IH.
  now apply insert_sorted_least.
Qed.

(** Two strictly increasing lists with the same elements are equal. *)
Lemma increasing_ext (l1 l2 : list Z) :
  StronglySorted Z.lt l1 -> StronglySorted Z.lt l2 ->
  (forall x, In x l1 <-> In x l2) -> l1 = l2.
Proof.
  intros H1. revert l2.
  induction H1 as [|x l1 Hs1 IH Hall1]; intros l2 H2 Hin.
  - destruct l2 as [|y l2]; [reflexivity|].
    exfalso. apply (proj2 (Hin y)). now left.
  - destruct H2 as [|y l2 Hs2 Hall2].
    + exfalso. apply (proj1 (Hin x)). now left.
    + rewrite Forall_forall in Hall1, Hall2.
      assert (Hxy : x = y).
      { destruct (proj1 (Hin x) (or_introl eq_refl)) as [E|Hx]; [now symmetry|].
        destruct (proj2 (Hin y) (or_introl eq_refl)) as [E|Hy]; [exact E|].
        specialize (Hall1 y Hy). specialize (Hall2 x Hx). lia. }
      subst y. f_equal. apply IH; [exact Hs2|].
      intros z. split; intros Hz.
      * destruct (proj1 (Hin z) (or_intror Hz)) as [E|Hz2]; [|exact Hz2].
        subst z. specialize (Hall1 x Hz). lia.
      * destruct (proj2 (Hin z) (or_intror Hz)) as [E|Hz1]; [|exact Hz1].
        subst z. specialize (Hall2 x Hz). lia.
Qed.

Lemma years_upto_In (n y : Z) : In y (years_upto n) <-> (1 <= y <= n)%Z.
Proof.
  unfold years_upto. rewrite in_map_iff. split.
  - intros (i & <- & Hi). apply in_seq in Hi. lia.
  - intros Hy. exists (Z.to_nat (y - 1)). split; [lia | apply in_seq; lia].
Qed.

Lemma years_upto_increasing (n : Z) : StronglySorted Z.lt (years_upto n).
Proof.
  unfold years_upto. generalize (Z.to_nat n) as len. generalize 0%nat as s.
  intros s len. revert s. induction len as [|len IH]; intros s; cbn [seq map].
  - constructor.
  - constructor; [apply IH|].
    apply Forall_forall. intros y Hy. apply in_map_iff in Hy.
    destruct Hy as (i & <- & Hi). apply in_seq in Hi. lia.
Qed.

Lemma filter_map_swap {A B : Type} (p : B -> bool) (f : A -> B)
    (l : list A) :
  filter p (map f l) = map f (filter (fun a => p (f a)) l).
Proof.
  induction l as [|a l IH]; [reflexivity|].
  cbn [map filter]. destruct (p (f a)); cbn [map]; now rewrite IH.
Qed.

(** The rows of year [y] are the 12 rows from index [12 * (y - 1)]. *)
Lemma year_df_schedule (emi monthly_rate base inc : Q) (v : Z)
    (loan_amount : Q) (tenure_years y : Z) :
  (1 <= y <= tenure_years)%Z ->
  year_df (schedule emi monthly_rate base inc v loan_amount
                    (Z.to_nat (tenure_years * 12))) y
  = map (fun k => row_at emi monthly_rate base inc v
                         (balance_after emi monthly_rate loan_amount k)
                         (1 + Z.of_nat k))
        (seq (Z.to_nat (12 * (y - 1))) 12).
Proof.
  intros Hy. unfold year_df, schedule. rewrite filter_map_swap.
  cbn [Year row_at]. f_equal.
  set (a := Z.to_nat (12 * (y - 1))).
  replace (Z.to_nat (tenure_years * 12))
    with (a + (12 + (Z.to_nat (tenure_years * 12) - a - 12)))%nat
    by (unfold a; lia).
  rewrite !seq_app, !filter_app.
  rewrite filter_none, filter_all, filter_none.
  - cbn [app]. now rewrite app_nil_r.
  - intros k Hk. apply in_seq in Hk. apply Z.eqb_neq.
    rewrite year_of_index. unfold a in Hk. lia.
  - intros k Hk. apply in_seq in Hk. apply Z.eqb_eq.
    rewrite year_of_index. unfold a in Hk. lia.
  - intros k Hk. apply in_seq in Hk. apply Z.eqb_neq.
    rewrite year_of_index. unfold a in Hk. lia.
Qed.



(** ** The averages of the selected year *)

(** The effective rent at position [j] of year [y]: nothing in the last
    [v] positions, the rent of the year before them. *)
Lemma effective_rent_in_year (base inc : Q) (v y : Z) (j : nat) :
  (j < 12)%nat ->
  effective_rent base inc v (1 + Z.of_nat (j + Z.to_nat (12 * (y - 1))))
  = if (Z.of_nat j >=? 12 - v)%Z then 0
    else base * (1 + inc / 100) ^ ((1 + Z.of_nat (Z.to_nat (12 * (y - 1)))
                                    - 1) / 12).
Proof.
  intros Hj. unfold effective_rent, is_vacant, escalated_rent.
  set (a := Z.to_nat (12 * (y - 1))).
  assert (Ha : (Z.of_nat a mod 12 = 0)%Z).
  { unfold a. destruct (Z.le_gt_cases 0 (12 * (y - 1))) as [H|H].
    - rewrite Z2Nat.id by exact H.
      replace (12 * (y - 1))%Z with (0 + (y - 1) * 12)%Z by lia.
      now rewrite Z.mod_add by lia.
    - replace (Z.to_nat (12 * (y - 1))) with 0%nat by lia. reflexivity. }
  assert (Hmod : ((1 + Z.of_nat (j + a) - 1) mod 12 = Z.of_nat j)%Z)
    by (Z.to_euclidean_division_equations; lia).
  assert (Hdiv : ((1 + Z.of_nat (j + a) - 1) / 12
                  = (1 + Z.of_nat a - 1) / 12)%Z)
    by (Z.to_euclidean_division_equations; lia).
  now rewrite Hmod, Hdiv.
Qed.

(** Twelve amounts of which the last [v] count for nothing and the others
    are [x] each, rounded one by one, add up to [12 - v] times the rounded
    [x]; with [w] in place of nothing, to that plus [v] times the rounded
    [w]. *)
Lemma Qsum_year (v : Z) (x w : Q) :
  (0 <= v <= 12)%Z ->
  Qsum (map (fun j => round2 (if (Z.of_nat j >=? 12 - v)%Z then w else x))
            (seq 0 12))
  == (12 - inject_Z v) * round2 x + inject_Z v * round2 w.
Proof.
  intros Hv.
  assert (Hcases : In v [0; 1; 2; 3; 4; 5; 6; 7; 8; 9; 10; 11; 12]%Z)
    by (cbn [In]; lia).
  cbn [In] in Hcases.
  repeat (destruct Hcases as [<-|Hcases];
          [cbn [seq map Z.of_nat Pos.of_succ_nat Pos.succ Z.sub Z.opp
                Z.add Z.pos_sub Z.geb Z.compare Pos.compare Pos.compare_cont
                Z.succ_double Z.pred_double Z.double Pos.pred_double
                Qsum fold_right inject_Z];
           set (rx := round2 x); set (rw := round2 w); ring|]).
  contradiction.
Qed.

Section YearAverages.

Variables emi monthly_rate : Q.
Variables base_monthly_rent annual_rent_increase : Q.
Variable vacancy_months : Z.
Variable loan_amount : Q.
Variable tenure_years : Z.
Hypothesis vacancy_range : (0 <= vacancy_months <= 12)%Z.

Let rows := schedule emi monthly_rate base_monthly_rent
                     annual_rent_increase vacancy_months loan_amount
                     (Z.to_nat (tenure_years * 12)).

(** The rent of [year], before rounding. *)
Let rent_of (year : Z) : Q :=
  base_monthly_rent * (1 + annual_rent_increase / 100) ^ (year - 1).

Lemma year_rent_sum (y : Z) :
  (1 <= y <= tenure_years)%Z ->
  Qsum (map Rent_Received (year_df rows y))
  == (12 - inject_Z vacancy_months) * round2 (rent_of y).
Proof.
  intros Hy. unfold rows. rewrite year_df_schedule by exact Hy.
  rewrite map_map. cbn [Rent_Received row_at].
  set (a := Z.to_nat (12 * (y - 1))).
  change (seq a 12) with (map (fun j => (j + a)%nat) (seq 0 12)).
  rewrite map_map.
  rewrite (map_ext_in _
             (fun j => round2 (if (Z.of_nat j >=? 12 - vacancy_months)%Z
                               then 0 else rent_of y))).
  - rewrite Qsum_year by exact vacancy_range. rewrite round2_0. ring.
  - intros j Hj. apply in_seq in Hj. unfold a.
    rewrite effective_rent_in_year by lia.
    unfold rent_of.
    replace ((1 + Z.of_nat (Z.to_nat (12 * (y - 1))) - 1) / 12)%Z
      with (y - 1)%Z; [reflexivity|].
    rewrite Z2Nat.id by lia. Z.to_euclidean_division_equations; lia.
Qed.

Lemma year_df_length (y : Z) :
  (1 <= y <= tenure_years)%Z -> length (year_df rows y) = 12%nat.
Proof.
  intros Hy. unfold rows. rewrite year_df_schedule by exact Hy.
  now rewrite length_map, length_seq.
Qed.

End YearAverages.

(** ** Break-even, once reached, stays *)

Lemma year_rent_mono (base inc : Q) (y y' : Z) :
  0 <= base -> 0 <= inc -> (1 <= y <= y')%Z ->
  round2 (base * (1 + inc / 100) ^ (y - 1))
  <= round2 (base * (1 + inc / 100) ^ (y' - 1)).
Proof.
  intros Hbase Hinc Hy. apply round2_mono.
  assert (Hi : 0 <= inc / 100) by (apply Qle_shift_div_l; [reflexivity | lra]).
  assert (Hg : (1 + inc / 100) ^ (y - 1) <= (1 + inc / 100) ^ (y' - 1))
    by (apply Qpower_le_compat_l; [lia | lra]).
  rewrite !(Qmult_comm base). now apply Qmult_le_compat_r.
Qed.

(** ** The rent column *)

Lemma escalated_rent_of_year (base inc : Q) (month year : Z) :
  ((month - 1) / 12 + 1 = year)%Z ->
  escalated_rent base inc month = base * (1 + inc / 100) ^ (year - 1).
Proof.
  intros E. unfold escalated_rent.
  now replace ((month - 1) / 12)%Z with (year - 1)%Z by lia.
Qed.



(** ** The cash-flow flag *)





(** * The script on binary64 numbers *)

(** ** calculate_emi *)

Lemma SFeqb_one (b : Binary64.float) :
  SFeqb b Binary64.one = true -> b = Binary64.one.
Proof.
  change Binary64.one with (S754_finite false 4503599627370496 (-52)).
  unfold SFeqb, SFcompare.
  destruct b as [s|s| |s m e].
  - destruct s; discriminate.
  - destruct s; discriminate.
  - discriminate.
  - destruct s; [discriminate|].
    destruct (Z.compare_spec e (-52)) as [He|He|He]; try discriminate.
    destruct (Pos.compare_cont Eq m 4503599627370496) eqn:Hm;
      try discriminate.
    intros _. apply Pos.compare_eq in Hm. now subst.
Qed.

Lemma py_pow_one (n : Z) :
  Binary64.py_pow Binary64.one n = Binary64.Ok Binary64.one.
Proof.
  unfold Binary64.py_pow. destruct (n =? 0)%Z; [reflexivity|].
  change Binary64.one with (S754_finite false 4503599627370496 (-52)).
  reflexivity.
Qed.




(** ** generate_amortization *)


(** The counterexample rows of the reference embedding are those of the
    binary64 run: in the second row of a 5-year loan of 100000 at 12
    percent the fields are 1236.69, 987.76 and 2224.44, and month 49
    reports a rent of 1215.51 and an out-of-pocket amount of 1008.94. *)
Example binary64_rows_2_and_49 :
  match Binary64.generate_amortization
          (Binary64.of_Z 100000) Binary64.zero (Binary64.of_Z 12) 5
          (Binary64.of_Z 1000) (Binary64.of_Z 5) 0 with
  | Binary64.Ok (rows, emi) =>
      match nth_error rows 1, nth_error rows 48, nth_error rows 59 with
      | Some row2, Some row49, Some row60 =>
          Binary64.Principal_Paid row2 = Binary64.of_Q (123669 # 100)
          /\ Binary64.Interest_Charged row2 = Binary64.of_Q (98776 # 100)
          /\ Binary64.Total_EMI row2 = Binary64.of_Q (222444 # 100)
          /\ Binary64.Rent_Received row49 = Binary64.of_Q (121551 # 100)
          /\ Binary64.Amount_Paid_by_User row49
             = Binary64.of_Q (100894 # 100)
          /\ SFeqb (Binary64.Outstanding_Balance row60) Binary64.zero = true
      | _, _, _ => False
      end
  | Binary64.Raise _ => False
  end.
Proof. vm_compute. repeat split. Qed.

(** * The schedule in the input ranges of the page *)

Lemma supported_loan_valid
    (property_value down_payment_percent annual_interest_rate : Q)
    (tenure_years : Z) :
  supported_loan property_value down_payment_percent annual_interest_rate
                 tenure_years ->
  0 < property_value - property_value * down_payment_percent / 100
  /\ 0 < annual_interest_rate
  /\ (0 < tenure_years)%Z.
Proof.
  intros ((Hpv1 & Hpv2) & (Hdp1 & Hdp2) & (Hr1 & Hr2) & HT).
  split; [|split; [lra | lia]].
  assert (Hprod : property_value * down_payment_percent
                  <= property_value * 50)
    by (apply Qmult_le_l; lra).
  assert (E : property_value * down_payment_percent / 100
              == property_value * down_payment_percent * (1 # 100))
    by field.
  rewrite E.
  set (t := property_value * down_payment_percent) in *. clearbody t. lra.
Qed.

Lemma supported_rent_valid
    (base_monthly_rent annual_rent_increase : Q) (vacancy_months : Z) :
  supported_rent base_monthly_rent annual_rent_increase vacancy_months ->
  0 < base_monthly_rent
  /\ 0 <= annual_rent_increase
  /\ (0 <= vacancy_months <= 12)%Z.
Proof.
  intros ((Hb1 & Hb2) & (Hi1 & Hi2) & Hv).
  split; [|split; [lra | lia]].
  apply Qlt_le_trans with (1 # 100); [reflexivity | exact Hb1].
Qed.

(** ** calculate_emi *)



(** ** The outstanding balance *)



(** ** Rounded fields of one row *)





(** ** Rent escalation *)



(** ** Interest and principal in the input ranges of the page *)



(** ** Break-even, once reached, stays *)



(** ** The rent within a year *)



(** ** The rows and the closed form of the balance *)



(** * The outcome of a run on binary64 numbers *)

(** With an exponent that is not negative, [**] raises nothing but
    [OverflowError]. *)
Lemma binary64_py_pow_raises (iv : Binary64.float) (n : Z) (e : Binary64.exn) :
  (0 <= n)%Z ->
  Binary64.py_pow iv n = Binary64.Raise e -> e = Binary64.OverflowError.
Proof.
  intros Hn. unfold Binary64.py_pow.
  destruct (n =? 0)%Z; [discriminate|].
  destruct iv as [s|s| |s m e0].
  - destruct (n <? 0)%Z eqn:E; [|discriminate].
    apply Z.ltb_lt in E. lia.
  - destruct (0 <? n)%Z; discriminate.
  - discriminate.
  - cbv zeta.
    destruct (SFeqb (S754_finite false m e0) Binary64.one); [discriminate|].
    destruct (Binary64.of_Q (Binary64.pos_value m e0 ^ n));
      intros H; try discriminate H.
    now injection H as <-.
Qed.

(** One turn of the loop appends one row, or raises what [**] raises. *)
Lemma binary64_month_body_cases
    (emi monthly_rate base_monthly_rent annual_rent_increase : Binary64.float)
    (vacancy_months : Z) (balance : Binary64.float)
    (rows : list Binary64.Row) (month : Z) :
  match Binary64.month_body emi monthly_rate base_monthly_rent
          annual_rent_increase vacancy_months (balance, rows) month with
  | Binary64.Ok (_, rows') =>
      exists row,
        rows' = rows ++ [row]
        /\ Binary64.Month row = month
        /\ Binary64.Year row = ((Binary64.Month row - 1) / 12 + 1)%Z
        /\ Binary64.Total_EMI row = Binary64.round2 emi
  | Binary64.Raise e => (1 <= month)%Z -> e = Binary64.OverflowError
  end.
Proof.
  unfold Binary64.month_body.
  destruct (Binary64.py_pow
              (Binary64.fadd Binary64.one
                 (Binary64.fdiv annual_rent_increase (Binary64.of_Z 100)))
              ((month - 1) / 12)) as [growth|e] eqn:Hp;
    cbn [Binary64.bind].
  - eexists. split; [reflexivity|]. cbn. repeat split.
  - intros Hm. apply (binary64_py_pow_raises _ _ _ (Z.div_pos (month - 1) 12
      ltac:(lia) ltac:(lia)) Hp).
Qed.

Lemma binary64_for_each_rows
    (emi monthly_rate base_monthly_rent annual_rent_increase : Binary64.float)
    (vacancy_months : Z) (months : list Z) :
  forall (balance : Binary64.float) (rows : list Binary64.Row),
  match Binary64.for_each
          (Binary64.month_body emi monthly_rate base_monthly_rent
             annual_rent_increase vacancy_months)
          months (balance, rows) with
  | Binary64.Ok (_, rows') =>
      exists new,
        rows' = rows ++ new
        /\ map Binary64.Month new = months
        /\ Forall (fun row =>
                     Binary64.Year row
                     = ((Binary64.Month row - 1) / 12 + 1)%Z
                     /\ Binary64.Total_EMI row = Binary64.round2 emi) new
  | Binary64.Raise e =>
      Forall (fun month => (1 <= month)%Z) months ->
      e = Binary64.OverflowError
  end.
Proof.
  induction months as [|month rest IH]; intros balance rows; cbn [Binary64.for_each].
  - exists []. split; [now rewrite app_nil_r|]. split; [reflexivity|constructor].
  - pose proof (binary64_month_body_cases emi monthly_rate base_monthly_rent
                  annual_rent_increase vacancy_months balance rows month)
      as Hbody.
    destruct (Binary64.month_body emi monthly_rate base_monthly_rent
                annual_rent_increase vacancy_months (balance, rows) month)
      as [[balance' rows']|e]; cbn [Binary64.bind].
    + destruct Hbody as (row & -> & Hm & Hy & Ht).
      specialize (IH balance' (rows ++ [row])).
      destruct (Binary64.for_each
                  (Binary64.month_body emi monthly_rate base_monthly_rent
                     annual_rent_increase vacancy_months)
                  rest (balance', rows ++ [row])) as [[b'' rows'']|e].
      * destruct IH as (new & -> & Hmonths & Hall).
        exists (row :: new). split; [now rewrite <- app_assoc|].
        split; [cbn [map]; now rewrite Hm, Hmonths|].
        constructor; [now split | exact Hall].
      * intros Hall. apply IH. now inversion Hall.
    + intros Hall. apply Hbody. now inversion Hall.
Qed.

Lemma py_range_from_1 (hi : Z) :
  Forall (fun month => (1 <= month)%Z) (py_range 1 hi).
Proof.
  unfold py_range. apply Forall_forall. intros month Hin.
  apply in_map_iff in Hin. destruct Hin as (i & <- & _). lia.
Qed.

(** What a call on binary64 numbers comes to.  It raises what
    [calculate_emi] raises; when [calculate_emi] returns, the only
    exception left is the [OverflowError] of the rent growth
    [(1 + annual_rent_increase / 100) ** year]; and when the call returns,
    the installment is that of [calculate_emi] on the loan amount, there is
    one row for each month of [range(1, tenure_years * 12 + 1)], in order,
    and every row carries the year of its month and the rounded
    installment. *)
Theorem binary64_schedule_outcome
    (property_value down_payment_percent annual_interest_rate : Binary64.float)
    (tenure_years : Z)
    (base_monthly_rent annual_rent_increase : Binary64.float)
    (vacancy_months : Z) :
  let loan_amount :=
    Binary64.fsub property_value
      (Binary64.fdiv (Binary64.fmul property_value down_payment_percent)
                     (Binary64.of_Z 100)) in
  let installment :=
    Binary64.calculate_emi loan_amount annual_interest_rate tenure_years in
  let outcome :=
    Binary64.generate_amortization property_value down_payment_percent
      annual_interest_rate tenure_years base_monthly_rent
      annual_rent_increase vacancy_months in
  (forall e, installment = Binary64.Raise e -> outcome = Binary64.Raise e)
  /\ (forall emi e,
        installment = Binary64.Ok emi -> outcome = Binary64.Raise e ->
        e = Binary64.OverflowError)
  /\ (forall rows emi,
        outcome = Binary64.Ok (rows, emi) ->
        installment = Binary64.Ok emi
        /\ map Binary64.Month rows = py_range 1 (tenure_years * 12 + 1)
        /\ Forall (fun row =>
                     Binary64.Year row
                     = ((Binary64.Month row - 1) / 12 + 1)%Z
                     /\ Binary64.Total_EMI row = Binary64.round2 emi) rows).
Proof.
  intros loan_amount installment outcome.
  assert (Hrun : forall emi,
            installment = Binary64.Ok emi ->
            outcome
            = Binary64.bind
                (Binary64.for_each
                   (Binary64.month_body emi
                      (Binary64.fdiv annual_interest_rate
                         (Binary64.of_Z (12 * 100)))
                      base_monthly_rent annual_rent_increase vacancy_months)
                   (py_range 1 (tenure_years * 12 + 1)) (loan_amount, []))
                (fun st => Binary64.Ok (snd st, emi))).
  { intros emi He. unfold outcome, Binary64.generate_amortization.
    fold loan_amount. fold installment. now rewrite He. }
  assert (Hloop : forall emi,
            match Binary64.for_each
                    (Binary64.month_body emi
                       (Binary64.fdiv annual_interest_rate
                          (Binary64.of_Z (12 * 100)))
                       base_monthly_rent annual_rent_increase vacancy_months)
                    (py_range 1 (tenure_years * 12 + 1)) (loan_amount, []) with
            | Binary64.Ok (_, rows') =>
                exists new,
                  rows' = [] ++ new
                  /\ map Binary64.Month new
                     = py_range 1 (tenure_years * 12 + 1)
                  /\ Forall (fun row =>
                               Binary64.Year row
                               = ((Binary64.Month row - 1) / 12 + 1)%Z
                               /\ Binary64.Total_EMI row
                                  = Binary64.round2 emi) new
            | Binary64.Raise e =>
                Forall (fun month => (1 <= month)%Z)
                       (py_range 1 (tenure_years * 12 + 1)) ->
                e = Binary64.OverflowError
            end)
    by (intros emi; apply binary64_for_each_rows).
  split; [|split].
  - intros e He. unfold outcome, Binary64.generate_amortization.
    fold loan_amount. fold installment. now rewrite He.
  - intros emi e He Hout. rewrite (Hrun emi He) in Hout.
    specialize (Hloop emi).
    destruct (Binary64.for_each _ _ _) as [[b rows']|e'];
      cbn [Binary64.bind] in Hout; [discriminate|].
    injection Hout as <-. apply Hloop, py_range_from_1.
  - intros rows emi Hout.
    destruct installment as [emi'|e] eqn:He.
    + rewrite (Hrun emi' eq_refl) in Hout.
      specialize (Hloop emi').
      destruct (Binary64.for_each _ _ _) as [[b rows']|e'];
        cbn [Binary64.bind snd] in Hout; [|discriminate].
      injection Hout as <- <-.
      destruct Hloop as (new & -> & Hmonths & Hall).
      now repeat split.
    + unfold outcome, Binary64.generate_amortization in Hout.
      fold loan_amount in Hout. fold installment in Hout.
      rewrite He in Hout. discriminate.
Qed.

(** With a yearly rent increase of 1e155 percent over 5 years the
    installment is computed and the rent growth overflows in the fourth
    year: the call raises [OverflowError] from inside the loop. *)
Example rent_growth_overflows :
  (exists emi,
     Binary64.calculate_emi (Binary64.of_Z 100000) (Binary64.of_Z 12) 5
     = Binary64.Ok emi)
  /\ Binary64.generate_amortization
       (Binary64.of_Z 100000) Binary64.zero (Binary64.of_Z 12) 5
       (Binary64.of_Z 1000) (Binary64.of_Z (10 ^ 155)) 0
     = Binary64.Raise Binary64.OverflowError.
Proof.
  split; [eexists|]; vm_compute; reflexivity.
Qed.

(** A rate of 7500 percent over 30 years overflows in [calculate_emi]. *)
Example huge_rate_overflows :
  Binary64.calculate_emi (Binary64.of_Z 19800000) (Binary64.of_Z 7500) 30
  = Binary64.Raise Binary64.OverflowError.
Proof. vm_compute. reflexivity. Qed.
